(** * Shallow embedding of the sanger-hgi-vault state store and file walkers

    Sources embedded here:
    - api/persistence/models/state.py : [_PersistedState], [State.Staged],
      [State.Deleted], [State.Warned] (exists / persist / mark_notified /
      file_cte);
    - bin/sandman/walk.py : [File.stat], [_RESTAT_AFTER],
      [BaseWalker._common_vaults], [FilesystemWalker.__init__],
      [mpistatWalker._base64_prefix], [mpistatWalker._is_match],
      [mpistatWalker._make_stat], [mpistatWalker.files], [BaseWalker._vault_status],
      the prefix table of [mpistatWalker.__init__];
    - bin/sandman/usage.py : the [parser] closure of [_parser_factory];
    - core/persistence.py : the [Anything] wildcard sentinel. *)

From Stdlib Require Import String Ascii List ZArith Bool Lia Permutation.
Import ListNotations.
Open Scope string_scope.
Open Scope Z_scope.

(** ** Python runtime: exceptions, results, wildcard sentinel *)

Inductive exn :=
| AssertionError
| NameError (name : string)
| IndexError
| ValueError
| RecursionError
| SQLSyntaxError          (* raised by the database on a malformed statement *)
| UnicodeDecodeError
| BinasciiError           (* invalid base64 input *)
| VaultConflict
| PhysicalVaultFile
| VaultCorruption
| OtherError (what : string).

Inductive res (A : Type) :=
| Ok (a : A)
| Err (e : exn).
Arguments Ok {A} a.
Arguments Err {A} e.

Definition res_bind {A B} (r : res A) (k : A -> res B) : res B :=
  match r with Ok a => k a | Err e => Err e end.

Notation "'let*' x ':=' r 'in' k" := (res_bind r (fun x => k))
  (at level 200, x name, r at level 100, k at level 200).

(** [T.Union[X, T.Type[persistence.Anything]]]: a concrete value or the
    [Anything] class used as a wildcard. *)
Inductive wild (A : Type) :=
| Anything
| Is (a : A).
Arguments Anything {A}.
Arguments Is {A} a.

(** Python truthiness of such a field: the [Anything] class object is
    truthy, a bool is itself. *)
Definition truthy (w : wild bool) : bool :=
  match w with Anything => true | Is b => b end.

Definition is_anything {A} (w : wild A) : bool :=
  match w with Anything => true | Is _ => false end.

(** ** Persisted schema (tables [status], [warnings], [notifications]) *)

Record status_row := mk_status {
  st_id : Z;
  st_file : Z;
  st_state : string
}.

Record warning_row := mk_warning {
  w_status : Z;
  w_tminus : Z     (* timedelta, in microseconds *)
}.

Record notif_row := mk_notif {
  n_status : Z;
  n_stakeholder : Z;
  n_notified : bool
}.

(** The database seen through a transaction.  [next_id] is the [status.id]
    serial; [stakeholders_of] gives the stakeholders (identity-manager uids)
    of a file. *)
Record db := mk_db {
  status : list status_row;
  warnings : list warning_row;
  notifications : list notif_row;
  next_id : Z;
  stakeholders_of : Z -> list Z
}.

(** A database-backed file: [hasattr(file, "db_id")] is [db_id <> None]. *)
Record pfile := mk_pfile { db_id : option Z }.

(** A stakeholder is an identity-manager user, of which [uid] is used. *)
Record user := mk_user { uid : Z }.

(** The state classes: [State.Deleted], [State.Staged] and
    [State.Warned(tminus)], each carrying the dataclass field [notified]. *)
Inductive kind :=
| Deleted
| Staged
| Warned (tminus : wild Z).

Record pstate := mk_pstate {
  notified : wild bool;
  skind : kind
}.

(** Class variable [db_type]. *)
Definition db_type (k : kind) : string :=
  match k with
  | Deleted => "deleted"
  | Staged => "staged"
  | Warned _ => "warned"
  end.

(** ** SQL text handling

    The SQL of the source is kept verbatim, with the whitespace of the
    triple-quoted strings collapsed to single spaces. *)

Fixpoint words_acc (cur : string) (s : string) : list string :=
  match s with
  | EmptyString => if String.eqb cur "" then [] else [cur]
  | String c r =>
      if Ascii.eqb c " "%char
      then (if String.eqb cur "" then words_acc "" r else cur :: words_acc "" r)
      else words_acc (cur ++ String c EmptyString) r
  end.

(** Whitespace tokens of a statement. *)
Definition tokens (s : string) : list string := words_acc "" s.

Definition starts_with_paren (t : string) : bool :=
  match t with String c _ => Ascii.eqb c "("%char | EmptyString => false end.

(** PostgreSQL's grammar for [INSERT]: a [VALUES] list is
    [VALUES '(' expr_list ')'] (or [DEFAULT VALUES]); a [VALUES] keyword
    followed by anything but a parenthesised row is a syntax error. *)
Fixpoint values_ok (toks : list string) : bool :=
  match toks with
  | [] => true
  | "default" :: "values" :: r => values_ok r
  | "values" :: t :: r => starts_with_paren t && values_ok r
  | "values" :: [] => false
  | _ :: r => values_ok r
  end.

(** Number of [%s] placeholders psycopg binds in a statement. *)
Fixpoint count_placeholders (s : string) : nat :=
  match s with
  | String "%"%char (String "s"%char r) => S (count_placeholders r)
  | String _ r => count_placeholders r
  | EmptyString => O
  end.

(** Bound parameters, as Python values. *)
Inductive param :=
| PStr (s : string)
| PInt (z : Z)
| PBool (b : bool)
| PDelta (d : Z).

Notation "'let*' ' p ':=' r 'in' k" :=
  (res_bind r (fun x => match x with p => k end))
  (at level 200, p pattern, r at level 100, k at level 200).

(** ** The state store: api/persistence/models/state.py *)

(** Names bound in the global namespace of module [state.py] (its imports,
    its classes and the module dunders); the builtins bind none of these. *)
Definition state_py_globals : list string :=
  ["__name__"; "__doc__"; "__package__"; "__loader__"; "__spec__";
   "__file__"; "__cached__"; "__builtins__";
   "dataclass"; "idm"; "persistence"; "T"; "Transaction"; "File";
   "_PersistedState"; "State"].

(** Evaluating a free name inside a method: enclosing class bodies are not
    scopes, so the module globals are searched, then the builtins. *)
Definition load_global (name : string) : res unit :=
  if existsb (String.eqb name) state_py_globals then Ok tt
  else Err (NameError name).

Definition insert_status (fid : Z) (ty : string) (d : db) : Z * db :=
  let i := next_id d in
  (i, {| status := status d ++ [mk_status i fid ty];
         warnings := warnings d;
         notifications := notifications d;
         next_id := i + 1;
         stakeholders_of := stakeholders_of d |}).

Definition insert_warning (sid tm : Z) (d : db) : db :=
  {| status := status d;
     warnings := warnings d ++ [mk_warning sid tm];
     notifications := notifications d;
     next_id := next_id d;
     stakeholders_of := stakeholders_of d |}.

(** Modelled from the spec: the [stakeholder_notified] view and the
    defaults of the [notifications] table (the schema is not in the
    source).  One row [(id, file, stakeholder, notified)] per status row and
    stakeholder of its file; [notified] holds when a notification row with
    a true flag exists for the pair.  An inserted notification row takes the
    flag true; [(status, stakeholder)] is the key [on conflict] tests. *)
Definition stakeholder_notified (d : db) : list (Z * Z * Z * bool) :=
  flat_map (fun r =>
    map (fun s =>
      (st_id r, st_file r, s,
       existsb (fun n => Z.eqb (n_status n) (st_id r)
                         && Z.eqb (n_stakeholder n) s && n_notified n)
               (notifications d)))
      (stakeholders_of d (st_file r)))
    (status d).

Definition notif_conflict (sid s : Z) (d : db) : bool :=
  existsb (fun n => Z.eqb (n_status n) sid && Z.eqb (n_stakeholder n) s)
          (notifications d).

(** [insert ... on conflict do nothing] of a list of [(status, stakeholder)]. *)
Fixpoint insert_notifications (rows : list (Z * Z)) (d : db) : db :=
  match rows with
  | [] => d
  | (sid, s) :: r =>
      let d1 :=
        if notif_conflict sid s d then d
        else {| status := status d;
                warnings := warnings d;
                notifications := notifications d ++ [mk_notif sid s true];
                next_id := next_id d;
                stakeholders_of := stakeholders_of d |} in
      insert_notifications r d1
  end.

(** The query of [mark_notified], as built from [query_sql]. *)
Definition notify_query_sql (s : wild user) : string :=
  "select id, stakeholder from stakeholder_notified where (not notified) and id = %s and file = %s"
  ++ match s with Anything => "" | Is _ => " and stakeholder = %s" end.

Definition notify_query_params (sid fid : Z) (s : wild user) : list param :=
  [PInt sid; PInt fid] ++ match s with Anything => [] | Is u => [PInt (uid u)] end.

(** The statement [mark_notified] executes (its f-string). *)
Definition notify_insert_sql (s : wild user) : string :=
  "insert into notifications (status, stakeholder) values " ++ notify_query_sql s
  ++ " on conflict do nothing;".

(** The database executing that insert: the statement is parsed first; a
    well-formed one inserts the selected rows, skipping conflicting ones. *)
Definition execute_notify_insert (sql : string) (ps : list param) (d : db)
  : res db :=
  if negb (values_ok (tokens sql)) then Err SQLSyntaxError else
  let select (sid fid : Z) (only : Z -> bool) :=
    map (fun p => let '(i, _, s, _) := p in (i, s))
      (filter (fun p => let '(i, f, s, nt) := p in
                 negb nt && Z.eqb i sid && Z.eqb f fid && only s)
              (stakeholder_notified d)) in
  match ps with
  | [PInt sid; PInt fid] =>
      Ok (insert_notifications (select sid fid (fun _ => true)) d)
  | [PInt sid; PInt fid; PInt u] =>
      Ok (insert_notifications (select sid fid (Z.eqb u)) d)
  | _ => Err (OtherError "ProgrammingError")
  end.

Section StateStore.

(** A [select] without [order by] returns its rows in an order the database
    chooses; [scan] is that order, applied to the matching rows. *)
Variable scan : list status_row -> list status_row.

(** [_PersistedState.exists]: [select id from status where state = %s and
    file = %s;] then [fetchone]. *)
Definition base_exists (st : pstate) (f : pfile) (d : db) : res (option Z) :=
  match db_id f with
  | None => Err AssertionError
  | Some fid =>
      match scan (filter (fun r => String.eqb (st_state r) (db_type (skind st))
                                   && Z.eqb (st_file r) fid) (status d)) with
      | [] => Ok None
      | r :: _ => Ok (Some (st_id r))
      end
  end.

(** [State.Warned.exists]: after its two assertions it builds the parameter
    tuple [(file.db_id, state.tminus)]; the name [state] is looked up before
    the query is sent.  The query ([select status.id from warnings join
    status on status.id = warnings.status where status.file = %s and
    warnings.tminus = %s;]) follows, with the looked-up lead-time. *)
Definition warned_exists (tm : wild Z) (f : pfile) (d : db) : res (option Z) :=
  match db_id f with
  | None => Err AssertionError
  | Some fid =>
      if is_anything tm then Err AssertionError else
      let* _ := load_global "state" in
      match tm with
      | Anything => Err AssertionError
      | Is t =>
          let ids := flat_map (fun w =>
                       map st_id (filter (fun r => Z.eqb (st_id r) (w_status w)
                                                    && Z.eqb (st_file r) fid)
                                         (status d)))
                       (filter (fun w => Z.eqb (w_tminus w) t) (warnings d)) in
          Ok (hd_error ids)
      end
  end.

(** [self.exists], dispatched on the class. *)
Definition exists_ (st : pstate) (f : pfile) (d : db) : res (option Z) :=
  match skind st with
  | Warned tm => warned_exists tm f d
  | _ => base_exists st f d
  end.

(** [persist] and [mark_notified] call each other through [self];
    [fuel] is the interpreter's recursion budget. *)
Fixpoint persist_f (fuel : nat) (st : pstate) (f : pfile) (d : db) {struct fuel}
  : res (Z * db) :=
  match fuel with
  | O => Err RecursionError
  | S n =>
      (* _PersistedState.persist *)
      let base (d0 : db) : res (Z * db) :=
        match db_id f with
        | None => Err AssertionError
        | Some fid =>
            let '(state_id, d1) := insert_status fid (db_type (skind st)) d0 in
            if truthy (notified st) then
              let* d2 := mark_notified_f n st f Anything d1 in Ok (state_id, d2)
            else Ok (state_id, d1)
        end in
      match skind st with
      | Warned tm =>
          (* State.Warned.persist *)
          match db_id f with
          | None => Err AssertionError
          | Some _ =>
              match tm with
              | Anything => Err AssertionError
              | Is t =>
                  let* '(state_id, d1) := base d in
                  Ok (state_id, insert_warning state_id t d1)
              end
          end
      | _ => base d
      end
  end
with mark_notified_f (fuel : nat) (st : pstate) (f : pfile) (s : wild user)
       (d : db) {struct fuel} : res db :=
  match fuel with
  | O => Err RecursionError
  | S n =>
      let* e := exists_ st f d in
      let* '(state_id, d1) :=
        match e with
        | None => persist_f n st f d
        | Some i => Ok (i, d)
        end in
      match db_id f with
      | None => Err (OtherError "AttributeError")
      | Some fid =>
          execute_notify_insert (notify_insert_sql s)
            (notify_query_params state_id fid s) d1
      end
  end.

Definition recursion_limit : nat := 1000.

Definition persist (st : pstate) (f : pfile) (d : db) : res (Z * db) :=
  persist_f recursion_limit st f d.

Definition mark_notified (st : pstate) (f : pfile) (s : wild user) (d : db)
  : res db :=
  mark_notified_f recursion_limit st f s d.

End StateStore.

(** [file_cte] of [_PersistedState] and its override in [State.Warned]. *)
Definition file_cte (st : pstate) : string * list param :=
  match skind st with
  | Warned tm =>
      let sql0 := "select distinct status.file from status join warnings on warnings.status = state.id where status.state = %s" in
      let ps0 := [PStr (db_type (skind st))] in
      let '(sql1, ps1) :=
        match notified st with
        | Anything => (sql0, ps0)
        | Is b => (sql0 ++ " and notified = %s", (ps0 ++ [PBool b])%list)
        end in
      match tm with
      | Anything => (sql1, ps1)
      | Is t => (sql1 ++ " and warnings.tminus = %s", (ps1 ++ [PDelta t])%list)
      end
  | _ =>
      let sql0 := "select file from status where state = %s" in
      let ps0 := [PStr (db_type (skind st))] in
      match notified st with
      | Anything => (sql0, ps0)
      | Is b => (sql0 ++ " and notified = %s", (ps0 ++ [PBool b])%list)
      end
  end.

(** ** Python string primitives used by bin/sandman/walk.py

    Strings are the UTF-8 bytes of Python [str] values. *)

Definition char_in (c : ascii) (cs : list ascii) : bool :=
  existsb (Ascii.eqb c) cs.

(** Characters for which [str.isspace] holds, restricted to ASCII. *)
Definition py_whitespace : list ascii :=
  [" "%char; "009"%char; "010"%char; "011"%char; "012"%char; "013"%char;
   "028"%char; "029"%char; "030"%char; "031"%char].

Fixpoint lstrip (s : string) : string :=
  match s with
  | String c r => if char_in c py_whitespace then lstrip r else s
  | EmptyString => EmptyString
  end.

Definition rev_string (s : string) : string :=
  string_of_list_ascii (rev (list_ascii_of_string s)).

(** [str.strip()]. *)
Definition py_strip (s : string) : string :=
  rev_string (lstrip (rev_string (lstrip s))).

(** [str.split(sep)] for a one-character separator: every separator splits,
    empty fields are kept, and the result is never empty. *)
Fixpoint split_acc (sep : ascii) (cur : string) (s : string) : list string :=
  match s with
  | EmptyString => [cur]
  | String c r =>
      if Ascii.eqb c sep then cur :: split_acc sep "" r
      else split_acc sep (cur ++ String c EmptyString) r
  end.

Definition py_split (s : string) (sep : ascii) : list string :=
  split_acc sep "" s.

(** Successive results of [readline()] on a stream opened in text mode:
    [\r\n] and [\r] read as [\n]; each line keeps its [\n]; once the
    stream is exhausted [readline()] returns [""] (not listed here). *)
Fixpoint universal_newlines (s : list ascii) : list ascii :=
  match s with
  | "013"%char :: "010"%char :: r => "010"%char :: universal_newlines r
  | "013"%char :: r => "010"%char :: universal_newlines r
  | c :: r => c :: universal_newlines r
  | [] => []
  end.

Fixpoint lines_acc (cur : list ascii) (s : list ascii) : list string :=
  match s with
  | [] => match cur with [] => [] | _ => [string_of_list_ascii (rev cur)] end
  | "010"%char :: r =>
      string_of_list_ascii (rev ("010"%char :: cur)) :: lines_acc [] r
  | c :: r => lines_acc (c :: cur) r
  end.

Definition readlines (text : string) : list string :=
  lines_acc [] (universal_newlines (list_ascii_of_string text)).

(** [int(s)] on a decimal literal: surrounding whitespace, an optional
    sign, then digits, with single underscores allowed between two digits.
    Text is taken as ASCII bytes: Unicode digits and whitespace beyond ASCII
    are not modelled.  [after_digit] records that the previous character
    was a digit. *)
Fixpoint digits_value (acc : Z) (after_digit : bool) (s : string) : option Z :=
  match s with
  | EmptyString => if after_digit then Some acc else None
  | String "_"%char r =>
      if after_digit then digits_value acc false r else None
  | String c r =>
      let n := Z.of_nat (nat_of_ascii c) in
      if (48 <=? n) && (n <=? 57) then digits_value (10 * acc + (n - 48)) true r
      else None
  end.

Definition py_int (s : string) : res Z :=
  let t := py_strip s in
  let '(sign, body) :=
    match t with
    | String "-"%char r => (-1, r)
    | String "+"%char r => (1, r)
    | _ => (1, t)
    end in
  match digits_value 0 false body with
  | Some v => Ok (sign * v)
  | None => Err ValueError
  end.

(** ** File entity: [File], [_RESTAT_AFTER] and [File.stat] *)

(** [os.stat_result]: mode, inode, device, links, uid, gid, size, atime,
    mtime, ctime. *)
Record stat_result := mk_stat {
  st_mode : Z; st_ino : Z; st_dev : Z; st_nlink : Z; st_uid : Z;
  st_gid : Z; st_size : Z; st_atime : Z; st_mtime : Z; st_ctime : Z
}.

(** [_VaultStatusT]: a branch or [None] (untracked), or one of the two
    caught vault exceptions carried as data. *)
Inductive vault_status :=
| VSBranch (b : option string)
| VSPhysical
| VSCorruption.

(** Times are microseconds since the epoch, durations are microseconds
    ([datetime] and [timedelta] resolution). *)
Record File := mk_File {
  path : string;
  branch : vault_status;
  _stat : stat_result;
  _timestamp : Z
}.

Definition hours (h : Z) : Z := h * 3600 * 1000000.

(** [_RESTAT_AFTER = time.delta(hours=int(os.getenv("RESTAT_AFTER", "36")))],
    from the value of the environment variable, if set; [timedelta] raises
    [OverflowError] beyond 999999999 days either way. *)
Definition restat_after (env : option string) : res Z :=
  let s := match env with Some v => v | None => "36" end in
  let* h := py_int s in
  if (h / 24 >? 999999999) || (h / 24 <? -999999999)
  then Err (OtherError "OverflowError")
  else Ok (hours h).

(** [File.stat] with bound [_RESTAT_AFTER]: [now1] and [now2] are the two
    successive [time.now()] readings and [path_stat] is [Path.stat].  The
    third component lists the paths whose metadata was read. *)
Definition File_stat (restat : Z) (now1 now2 : Z)
  (path_stat : string -> res stat_result) (f : File)
  : res (stat_result * File * list string) :=
  if now1 - _timestamp f >? restat then
    let* s := path_stat (path f) in
    let f' := {| path := path f; branch := branch f; _stat := s;
                 _timestamp := now2 |} in
    Ok (_stat f', f', [path f])
  else Ok (_stat f, f, []).

(** ** Walker construction: [BaseWalker._common_vaults] and
    [FilesystemWalker.__init__] *)

Section CommonVaults.

(** The vault type, the equality the [set] uses for it, and the [Vault]
    constructor [Vault(path, idm=idm)], which may raise; [conflict_str p] is
    [str(e)] of the [VaultConflict] it raises for [p]. *)
Variable vault : Type.
Variable vault_eqb : vault -> vault -> bool.
Variable Vault_new : string -> res vault.
Variable conflict_str : string -> string.

Definition set_add (v : vault) (vs : list vault) : list vault :=
  if existsb (vault_eqb v) vs then vs else vs ++ [v].

(** The warning [log.warning(f"Skipping {path}: {e}")]. *)
Definition skip_warning (p : string) : string :=
  "Skipping " ++ p ++ ": " ++ conflict_str p.

(** The loop of [_common_vaults]: its outcome, and the warnings it logs
    on the way (logged also when an exception then escapes). *)
Fixpoint common_vaults_loop (paths : list string) (vs : list vault)
  : res (list vault) * list string :=
  match paths with
  | [] => (Ok vs, [])
  | p :: r =>
      match Vault_new p with
      | Ok v => common_vaults_loop r (set_add v vs)
      | Err VaultConflict =>
          let '(out, log) := common_vaults_loop r vs in
          (out, skip_warning p :: log)
      | Err e => (Err e, [])
      end
  end.

Definition _common_vaults (paths : list string)
  : res (list vault) * list string :=
  common_vaults_loop paths [].

(** [FilesystemWalker.__init__]: the vault set, then
    [assert len(self._vaults) > 0]; with the warnings logged. *)
Definition FilesystemWalker_init (bases : list string)
  : res (list vault) * list string :=
  let '(out, log) := _common_vaults bases in
  match out with
  | Err e => (Err e, log)
  | Ok [] => (Err AssertionError, log)
  | Ok vs => (Ok vs, log)
  end.

End CommonVaults.

(** ** Base64 (core.utils.base64)

    Modelled from the spec: the snapshot's path encoding, "a reversible,
    alphabet-safe encoding (e.g., base64) of the raw path bytes"
    ([core.utils.base64] is not in the source).  Standard alphabet with
    [=] padding; decoding accepts only canonical padded input. *)

Section Base64.
Local Open Scope nat_scope.

Definition b64_alphabet : string :=
  "ABCDEFGHIJKLMNOPQRSTUVWXYZabcdefghijklmnopqrstuvwxyz0123456789+/".

Definition b64_char (n : nat) : ascii :=
  match String.get n b64_alphabet with Some c => c | None => "="%char end.

Fixpoint b64_index_acc (c : ascii) (s : string) (i : nat) : option nat :=
  match s with
  | EmptyString => None
  | String d r => if Ascii.eqb c d then Some i else b64_index_acc c r (S i)
  end.

Definition b64_index (c : ascii) : option nat := b64_index_acc c b64_alphabet 0.

Fixpoint b64_encode_bytes (l : list nat) : list ascii :=
  match l with
  | a :: b :: c :: r =>
      b64_char (a / 4) :: b64_char (16 * (a mod 4) + b / 16)
      :: b64_char (4 * (b mod 16) + c / 64) :: b64_char (c mod 64)
      :: b64_encode_bytes r
  | [a; b] =>
      [b64_char (a / 4); b64_char (16 * (a mod 4) + b / 16);
       b64_char (4 * (b mod 16)); "="%char]
  | [a] => [b64_char (a / 4); b64_char (16 * (a mod 4)); "="%char; "="%char]
  | [] => []
  end.

Definition b64encode (s : string) : string :=
  string_of_list_ascii
    (b64_encode_bytes (map nat_of_ascii (list_ascii_of_string s))).

Definition opt_res {A} (o : option A) : res A :=
  match o with Some a => Ok a | None => Err BinasciiError end.

Fixpoint b64_decode_chars (l : list ascii) : res (list nat) :=
  match l with
  | [] => Ok []
  | [c1; c2; "="%char; "="%char] =>
      let* a := opt_res (b64_index c1) in
      let* b := opt_res (b64_index c2) in
      Ok [4 * a + b / 16]
  | [c1; c2; c3; "="%char] =>
      let* a := opt_res (b64_index c1) in
      let* b := opt_res (b64_index c2) in
      let* c := opt_res (b64_index c3) in
      Ok [4 * a + b / 16; 16 * (b mod 16) + c / 4]
  | c1 :: c2 :: c3 :: c4 :: r =>
      let* a := opt_res (b64_index c1) in
      let* b := opt_res (b64_index c2) in
      let* c := opt_res (b64_index c3) in
      let* d := opt_res (b64_index c4) in
      let* rest := b64_decode_chars r in
      Ok (4 * a + b / 16 :: 16 * (b mod 16) + c / 4 :: 64 * (c mod 4) + d
          :: rest)
  | _ => Err BinasciiError
  end.

(** [base64.decode(encoded_path).decode()]: base64, then the bytes as a
    [str]. *)
Definition b64decode (s : string) : res string :=
  let* bs := b64_decode_chars (list_ascii_of_string s) in
  Ok (string_of_list_ascii (map ascii_of_nat bs)).

End Base64.

(** ** [pathlib.PurePosixPath]: parts and [relative_to] *)

(** The anchor of a POSIX path: exactly two leading slashes are kept as
    [//], one or more than two read as [/]. *)
Definition path_anchor (s : string) : option string :=
  match s with
  | String "/"%char (String "/"%char (String "/"%char _)) => Some "/"
  | String "/"%char (String "/"%char _) => Some "//"
  | String "/"%char _ => Some "/"
  | _ => None
  end.

(** [PurePath.parts]: the anchor, then the components, with empty and [.]
    components dropped. *)
Definition path_parts (s : string) : list string :=
  let comps := filter (fun c => negb (String.eqb c "") && negb (String.eqb c "."))
                      (py_split s "/"%char) in
  match path_anchor s with
  | Some a => a :: comps
  | None => comps
  end.

Fixpoint list_prefixb (a b : list string) : bool :=
  match a, b with
  | [], _ => true
  | x :: a', y :: b' => String.eqb x y && list_prefixb a' b'
  | _ :: _, [] => false
  end.

(** [PurePath.relative_to(other)] succeeds (instead of raising
    [ValueError]) when the parts of [other] begin those of the path; with
    [other] empty it succeeds only for a relative path. *)
Definition relative_to_ok (p other : string) : bool :=
  match path_parts other with
  | [] => match path_anchor p with None => true | Some _ => false end
  | op => list_prefixb op (path_parts p)
  end.

(** ** The snapshot walker: [mpistatWalker] *)

Section Mpistat.

(** [base64.encode] of a path's string. *)
Variable encode : string -> string.
(** [base64.decode(...).decode()], which may raise. *)
Variable decode : string -> res string.
(** Vaults, their [root] (as a string) and [vault.branch], which may raise. *)
Variable vault : Type.
Variable vault_root : vault -> string.
Variable vault_branch : vault -> string -> res (option string).

(** [mpistatWalker._base64_prefix]: the loop leaves [i] at the first index
    where the encodings differ, or one past the last index of [zip] when
    none does; with [zip] empty [i] is never bound. *)
Fixpoint common_prefix_len (a b : string) : nat :=
  match a, b with
  | String x a', String y b' =>
      if Ascii.eqb x y then S (common_prefix_len a' b') else O
  | _, _ => O
  end.

Definition _base64_prefix (root : string) : res string :=
  let bare := encode root in
  let slashed := encode (root ++ "/") in
  match bare, slashed with
  | EmptyString, _ | _, EmptyString => Err (OtherError "UnboundLocalError")
  | _, _ => Ok (substring 0 (common_prefix_len bare slashed) bare)
  end.

(** A [dict] as its items in insertion order: assigning an existing key
    replaces the value in place. *)
Fixpoint dict_set {V} (k : string) (v : V) (items : list (string * V))
  : list (string * V) :=
  match items with
  | [] => [(k, v)]
  | (k', v') :: r =>
      if String.eqb k k' then (k, v) :: r else (k', v') :: dict_set k v r
  end.

(** The comprehension building [self._vaults] from the vault set. *)
Fixpoint vaults_dict (vs : list vault) (acc : list (string * vault))
  : res (list (string * vault)) :=
  match vs with
  | [] => Ok acc
  | v :: r =>
      let* pre := _base64_prefix (vault_root v) in
      vaults_dict r (dict_set pre v acc)
  end.

(** [mpistatWalker._is_match], over the items of [self._vaults]. *)
Fixpoint _is_match (items : list (string * vault)) (encoded_path : string)
  : res (option (vault * string)) :=
  match items with
  | [] => Ok None
  | (prefix, v) :: r =>
      if String.prefix prefix encoded_path then
        let* decoded_path := decode encoded_path in
        if relative_to_ok decoded_path (vault_root v)
        then Ok (Some (v, decoded_path))
        else _is_match r encoded_path
      else _is_match r encoded_path
  end.

(** [BaseWalker._vault_status]. *)
Definition _vault_status (v : vault) (p : string) : res vault_status :=
  match vault_branch v p with
  | Ok b => Ok (VSBranch b)
  | Err PhysicalVaultFile => Ok VSPhysical
  | Err VaultCorruption => Ok VSCorruption
  | Err e => Err e
  end.

Definition nth_field (stats : list string) (i : nat) : res string :=
  match nth_error stats i with Some s => Ok s | None => Err IndexError end.

Definition int_field (stats : list string) (i : nat) : res Z :=
  let* s := nth_field stats i in py_int s.

(** [mpistatWalker._make_stat]; field indices [_SIZE = 0] .. [_DEVICE = 9].
    [stat.S_IFREG] is [0o100000]. *)
Definition _make_stat (stats : list string) : res stat_result :=
  if negb (Nat.eqb (length stats) 10) then Err AssertionError else
  let* ino := int_field stats 7 in
  let* dev := int_field stats 9 in
  let* nlink := int_field stats 8 in
  let* uid := int_field stats 1 in
  let* gid := int_field stats 2 in
  let* size := int_field stats 0 in
  let* atime := int_field stats 3 in
  let* mtime := int_field stats 4 in
  let* ctime := int_field stats 5 in
  Ok (mk_stat 32768 ino dev nlink uid gid size atime mtime ctime).

(** One turn of the [while] loop of [mpistatWalker.files] on the line
    [readline()] returned: the loop test, then the body. *)
Inductive turn := Stop | Next (y : option File).

Definition files_turn (items : list (string * vault)) (ts : Z) (line : string)
  : res turn :=
  match py_split (py_strip line) "009"%char with
  | [] => Ok Stop
  | encoded :: stats =>
      let* mode := nth_field stats 6 in
      if String.eqb mode "f" then
        let* m := _is_match items encoded in
        match m with
        | None => Ok (Next None)
        | Some (v, p) =>
            let* b := _vault_status v p in
            let* st := _make_stat stats in
            Ok (Next (Some (mk_File p b st ts)))
        end
      else Ok (Next None)
  end.

(** How the generator ends: the loop test failed, the body raised, or the
    loop keeps running on the [""] lines of an exhausted stream. *)
Inductive ending := Finished | Raised (e : exn) | Loops.

Fixpoint files_loop (items : list (string * vault)) (ts : Z)
  (lines : list string) : list File * ending :=
  match lines with
  | [] =>
      match files_turn items ts "" with
      | Ok Stop => ([], Finished)
      | Ok (Next _) => ([], Loops)
      | Err e => ([], Raised e)
      end
  | l :: r =>
      match files_turn items ts l with
      | Ok Stop => ([], Finished)
      | Ok (Next y) =>
          let '(ys, e) := files_loop items ts r in
          (match y with Some f => f :: ys | None => ys end, e)
      | Err e => ([], Raised e)
      end
  end.

(** [mpistatWalker.files] on the decompressed text of the snapshot: the
    files yielded, in order, and how the iteration ends. *)
Definition mpistat_files (items : list (string * vault)) (ts : Z)
  (text : string) : list File * ending :=
  files_loop items ts (readlines text).

End Mpistat.

(** ** Properties stated about the code *)

Open Scope list_scope.

(** Column compared with each [%s] of a [file_cte] fragment
    ([<column> = %s]), in order. *)
Fixpoint placeholder_columns (toks : list string) : list string :=
  match toks with
  | c :: "=" :: "%s" :: r => c :: placeholder_columns r
  | _ :: r => placeholder_columns r
  | [] => []
  end.

(** The parameter a column is bound to: the state name, the notified flag,
    the lead-time. *)
Definition col_matches (c : string) (p : param) : Prop :=
  match p with
  | PStr _ => c = "state" \/ c = "status.state"
  | PBool _ => c = "notified"
  | PDelta _ => c = "warnings.tminus"
  | PInt _ => False
  end.

(** A path lies in the tree of [root]: its parts extend those of [root]. *)
Definition path_under (root p : string) : Prop :=
  exists rest, path_parts p = (path_parts root ++ rest)%list.

(** The base paths whose vault resolution raised a conflict. *)
Definition conflicted {vault} (Vault_new : string -> res vault) (p : string)
  : bool :=
  match Vault_new p with Err VaultConflict => true | _ => false end.

(** Example databases: empty, and with one staged row for file 1. *)
Definition db_empty : db := mk_db [] [] [] 1 (fun _ => [7; 8]).

Definition db_one_staged : db :=
  mk_db [mk_status 1 1 "staged"] [] [] 2 (fun _ => [7; 8]).

(** Example walker inputs: a walked file, vault resolutions for two base
    paths (the second conflicting, or raising another exception), and the
    prefix table for the vault roots [/data/a] and [/data/ab]. *)
Definition stat_example : stat_result := mk_stat 32768 1 1 1 0 0 10 0 0 0.

Definition file_example : File :=
  mk_File "/vaults/x/f" (VSBranch None) stat_example 0.

Definition resolve_conflict (p : string) : res string :=
  if String.eqb p "/vaults/x" then Ok p else Err VaultConflict.

Definition resolve_other (p : string) : res string :=
  if String.eqb p "/vaults/x" then Ok p else Err (OtherError "PermissionError").

Definition items_ab : list (string * string) :=
  [("L2RhdGEvY", "/data/a"); ("L2RhdGEvYWI", "/data/ab")].

(** ** SQL table references *)

(** Tables a statement reads: the token after each [from] and [join]. *)
Fixpoint from_tables (toks : list string) : list string :=
  match toks with
  | "from" :: t :: r => t :: from_tables r
  | "join" :: t :: r => t :: from_tables r
  | _ :: r => from_tables r
  | [] => []
  end.

(** The table qualifying a column reference [table.column]. *)
Fixpoint qualifier (t : string) : option string :=
  match t with
  | EmptyString => None
  | String "."%char _ => Some EmptyString
  | String c r => option_map (String c) (qualifier r)
  end.

Fixpoint qualifiers (toks : list string) : list string :=
  match toks with
  | [] => []
  | t :: r =>
      match qualifier t with
      | Some q => q :: qualifiers r
      | None => qualifiers r
      end
  end.

(** ** bin/sandman/usage.py: the [parser] closure of [_parser_factory] *)

(** The [argparse.Namespace] it returns. *)
Record namespace := mk_namespace {
  vaults : list string;
  weaponise : bool;
  force_drain : bool;
  stats : option string
}.

Section Usage.

(** [top_level.parse_args] (which exits on a malformed command line) and
    [Path.resolve], which may raise. *)
Variable top_level_parse_args : list string -> res namespace.
Variable resolve : string -> res string.

Fixpoint resolve_all (ps : list string) : res (list string) :=
  match ps with
  | [] => Ok []
  | p :: r =>
      let* q := resolve p in
      let* qs := resolve_all r in
      Ok (q :: qs)
  end.

(** [top_level.error] raises [SystemExit]. *)
Definition parser (args : list string) : res namespace :=
  let* parsed := top_level_parse_args args in
  if force_drain parsed && negb (weaponise parsed)
  then Err (OtherError "SystemExit")
  else
    let* st := match stats parsed with
               | Some s => let* r := resolve s in Ok (Some r)
               | None => Ok None
               end in
    let* vs := resolve_all (vaults parsed) in
    Ok (mk_namespace vs (weaponise parsed) (force_drain parsed) st).

End Usage.

(** ** The snapshot walker's prefix table *)

(** A snapshot line: its fields joined by tabs. *)
Fixpoint tab_join (l : list string) : string :=
  match l with
  | [] => EmptyString
  | [x] => x
  | x :: r => (x ++ String "009" (tab_join r))%string
  end.

(** Common prefix length and prefix test on lists of characters. *)
Fixpoint cpl_list (a b : list ascii) : nat :=
  match a, b with
  | x :: a', y :: b' => if Ascii.eqb x y then S (cpl_list a' b') else O
  | _, _ => O
  end.

Fixpoint prefix_list (a b : list ascii) : bool :=
  match a, b with
  | [], _ => true
  | x :: a', y :: b' => Ascii.eqb x y && prefix_list a' b'
  | _ :: _, [] => false
  end.

(** ** Helper lemmas *)

Lemma notify_insert_rejected : forall s ps d,
  execute_notify_insert (notify_insert_sql s) ps d = Err SQLSyntaxError.
Proof. intros [|u] ps d; reflexivity. Qed.

Lemma perm_nonempty {A} (l l' : list A) :
  Permutation l l' -> l' <> [] -> l <> [].
Proof.
  intros Hp Hne Hl; subst. apply Permutation_nil in Hp. congruence.
Qed.

Lemma filter_app_match_last (p : status_row -> bool) l r :
  p r = true -> filter p (l ++ [r]) = filter p l ++ [r].
Proof. intros Hr. rewrite filter_app. simpl. now rewrite Hr. Qed.

Lemma base_exists_after_insert scan
  (Hscan : forall l, Permutation (scan l) l) st fid d :
  skind st = Staged \/ skind st = Deleted ->
  exists i, base_exists scan st (mk_pfile (Some fid))
              (snd (insert_status fid (db_type (skind st)) d)) = Ok (Some i).
Proof.
  intros Hk. unfold base_exists, insert_status; simpl.
  rewrite filter_app_match_last
    by (rewrite String.eqb_refl, Z.eqb_refl; reflexivity).
  match goal with |- context [scan ?x] => set (rows := x) end.
  assert (Hne : scan rows <> []).
  { apply (perm_nonempty _ rows); [apply Hscan|]. unfold rows.
    intro H. apply app_eq_nil in H. destruct H as [_ H]. discriminate. }
  destruct (scan rows) as [|r0 ?]; [congruence|]. eauto.
Qed.

Lemma staged_or_deleted_exists scan st f d :
  skind st = Staged \/ skind st = Deleted ->
  exists_ scan st f d = base_exists scan st f d.
Proof. intros [Hk|Hk]; unfold exists_; now rewrite Hk. Qed.

Lemma base_exists_ok scan st fid d :
  exists o, base_exists scan st (mk_pfile (Some fid)) d = Ok o.
Proof.
  unfold base_exists; simpl.
  destruct (scan _); eauto.
Qed.

(** Whatever the input, [mark_notified] ends in an exception. *)
Lemma mark_notified_f_err scan fuel st f s d :
  exists e, mark_notified_f scan fuel st f s d = Err e.
Proof.
  destruct fuel as [|n]; simpl; [eauto|].
  destruct (exists_ scan st f d) as [[i|]|e]; simpl; [| |eauto].
  - destruct (db_id f); [rewrite notify_insert_rejected|]; eauto.
  - destruct (persist_f scan n st f d) as [[i d1]|e]; simpl; [|eauto].
    destruct (db_id f); [rewrite notify_insert_rejected|]; eauto.
Qed.

(** With at least three frames of recursion budget, [mark_notified] on a
    staged or deleted state raises the database's syntax error: the
    status lookup succeeds, the lazy [persist] (and, when [notified] is
    truthy, its nested [mark_notified]) runs, and the [insert ... values
    select ...] statement is rejected. *)
Lemma mark_notified_f_syntax scan (Hscan : forall l, Permutation (scan l) l)
  n st fid s d :
  skind st = Staged \/ skind st = Deleted ->
  mark_notified_f scan (S (S (S n))) st (mk_pfile (Some fid)) s d
  = Err SQLSyntaxError.
Proof.
  intros Hk.
  destruct (base_exists_after_insert scan Hscan st fid d Hk) as [j Hj].
  destruct (base_exists_ok scan st fid d) as [o Ho].
  destruct st as [nt k]; simpl in Hk.
  destruct Hk as [-> | ->];
    cbn [mark_notified_f exists_ skind]; rewrite Ho; cbn [res_bind];
    (destruct o as [i|];
     [ cbn [db_id]; apply notify_insert_rejected
     | cbn [persist_f skind db_id notified];
       destruct (insert_status fid _ d) as [sid d1] eqn:Hins;
       simpl snd in Hj;
       destruct (truthy nt);
       [ cbn [mark_notified_f exists_ skind]; rewrite Hj;
         cbn [res_bind db_id]; rewrite notify_insert_rejected; reflexivity
       | cbn [res_bind db_id]; apply notify_insert_rejected ] ]).
Qed.

Lemma filter_none {A} (p : A -> bool) l :
  Forall (fun x => p x = false) l -> filter p l = [].
Proof.
  induction 1 as [|x l Hx _ IH]; simpl; [reflexivity|]. now rewrite Hx.
Qed.

(** A successful [persist] of a staged or deleted state inserted exactly
    one status row, under the serial's next id. *)
Lemma persist_ok_inv scan n st fid d sid d' :
  skind st = Staged \/ skind st = Deleted ->
  persist_f scan (S n) st (mk_pfile (Some fid)) d = Ok (sid, d') ->
  (sid, d') = insert_status fid (db_type (skind st)) d.
Proof.
  intros Hk H.
  destruct st as [nt k]; simpl in Hk.
  destruct Hk as [-> | ->]; cbn [persist_f skind db_id notified] in H;
    destruct (insert_status fid _ d) as [i d1] eqn:Hins;
    (destruct (truthy nt);
     [ match type of H with
       | context [mark_notified_f scan n ?st ?f ?s ?d1] =>
           destruct (mark_notified_f_err scan n st f s d1) as [e He]
       end;
       rewrite He in H; discriminate
     | congruence ]).
Qed.

(** [persist] of a truthy-[notified] staged or deleted state raises the
    syntax error of its nested [mark_notified]. *)
Lemma persist_f_notified_syntax scan (Hscan : forall l, Permutation (scan l) l)
  n k fid d :
  k = Staged \/ k = Deleted ->
  persist_f scan (S (S (S (S n)))) (mk_pstate (Is true) k) (mk_pfile (Some fid)) d
  = Err SQLSyntaxError.
Proof.
  intros Hk.
  destruct Hk as [-> | ->]; cbn [persist_f skind db_id notified truthy];
    destruct (insert_status fid _ d) as [sid d1] eqn:Hins;
    (rewrite mark_notified_f_syntax; [reflexivity | exact Hscan | simpl; auto]).
Qed.

Lemma recursion_limit_S3 : recursion_limit = S (S (S 997)).
Proof. reflexivity. Qed.

Lemma persist_limit scan st f d :
  persist scan st f d = persist_f scan (S (S (S (S 996)))) st f d.
Proof. unfold persist. rewrite recursion_limit_S3. reflexivity. Qed.

Lemma mark_notified_limit scan st f s d :
  mark_notified scan st f s d = mark_notified_f scan (S (S (S 997))) st f s d.
Proof. unfold mark_notified. rewrite recursion_limit_S3. reflexivity. Qed.

(** ** Claims *)

(** C1 (amended).  For a staged or deleted state, when [persist] of file
    [f] succeeds and no status row for [(f, state-kind)] existed before,
    [exists] afterwards returns the id [persist] just created, whatever
    row order the database uses. *)
Theorem exists_after_persist scan (Hscan : forall l, Permutation (scan l) l)
  n k fid d sid d' :
  k = Staged \/ k = Deleted ->
  Forall (fun r => st_file r <> fid \/ st_state r <> db_type k) (status d) ->
  persist scan (mk_pstate n k) (mk_pfile (Some fid)) d = Ok (sid, d') ->
  exists_ scan (mk_pstate n k) (mk_pfile (Some fid)) d' = Ok (Some sid).
Proof.
  intros Hk Hnone Hp.
  rewrite persist_limit in Hp.
  apply persist_ok_inv in Hp; [|exact Hk].
  unfold insert_status in Hp; simpl in Hp. injection Hp as -> ->.
  rewrite staged_or_deleted_exists by exact Hk.
  unfold base_exists; simpl.
  rewrite filter_app_match_last
    by (rewrite String.eqb_refl, Z.eqb_refl; reflexivity).
  rewrite filter_none.
  - simpl. pose proof (Hscan [mk_status (next_id d) fid (db_type k)]) as Hp.
    apply Permutation_sym, Permutation_length_1_inv in Hp.
    rewrite Hp. reflexivity.
  - eapply Forall_impl; [|exact Hnone]. intros r Hr.
    apply andb_false_iff.
    destruct Hr as [Hr|Hr]; [right; apply Z.eqb_neq; exact Hr
                            | left; apply String.eqb_neq; exact Hr].
Qed.

Lemma exists_after_persist_witness :
  exists_ (fun l => l) (mk_pstate (Is false) Staged) (mk_pfile (Some 1))
    (snd (insert_status 1 "staged" db_empty)) = Ok (Some 1).
Proof.
  apply (exists_after_persist (fun l => l) (@Permutation_refl _) (Is false)
           Staged 1 db_empty 1).
  - left; reflexivity.
  - constructor.
  - vm_compute. reflexivity.
Defined.

(** C1 counterexample.  With an older staged row for file 1 and rows read
    in table order, [exists] after [persist] returns the older id 1, not
    the id 2 [persist] just created. *)
Lemma exists_after_persist_older_row :
  persist (fun l => l) (mk_pstate (Is false) Staged) (mk_pfile (Some 1))
    db_one_staged = Ok (2, snd (insert_status 1 "staged" db_one_staged))
  /\ exists_ (fun l => l) (mk_pstate (Is false) Staged) (mk_pfile (Some 1))
       (snd (insert_status 1 "staged" db_one_staged)) = Ok (Some 1).
Proof. split; vm_compute; reflexivity. Qed.

(** C2 (code defect).  [State.Warned.exists] fails fast with the wildcard
    lead-time, but with a concrete lead-time it never reaches its query: the
    parameter tuple names [state], bound nowhere in the module, and raises
    [NameError] whatever warning rows exist. *)
Theorem warned_exists_name_error scan nt fid tm d :
  exists_ scan (mk_pstate nt (Warned Anything)) (mk_pfile (Some fid)) d
    = Err AssertionError
  /\ exists_ scan (mk_pstate nt (Warned (Is tm))) (mk_pfile (Some fid)) d
       = Err (NameError "state").
Proof. split; reflexivity. Qed.

(** C4 (code defect).  [persist] of a staged or deleted state whose
    [notified] flag is true calls [mark_notified(file, Anything)], whose
    [insert ... values select ...] statement the database rejects: the
    persist raises, so no notification is recorded. *)
Theorem persist_notified_raises scan (Hscan : forall l, Permutation (scan l) l)
  k fid d :
  k = Staged \/ k = Deleted ->
  persist scan (mk_pstate (Is true) k) (mk_pfile (Some fid)) d
  = Err SQLSyntaxError.
Proof.
  intros Hk. rewrite persist_limit. now apply persist_f_notified_syntax.
Qed.

Lemma persist_notified_raises_witness :
  persist (fun l => l) (mk_pstate (Is true) Staged) (mk_pfile (Some 1))
    db_empty = Err SQLSyntaxError.
Proof.
  apply (persist_notified_raises (fun l => l) (@Permutation_refl _)).
  left; reflexivity.
Defined.

(** C5 (code defect).  [mark_notified(f, s)] for a concrete stakeholder
    raises on its first call already: its statement is
    [insert into notifications (status, stakeholder) values select ...],
    which the database rejects, so no notification row is ever written. *)
Theorem mark_notified_user_raises scan (Hscan : forall l, Permutation (scan l) l)
  nt k fid u d :
  k = Staged \/ k = Deleted ->
  mark_notified scan (mk_pstate nt k) (mk_pfile (Some fid)) (Is u) d
  = Err SQLSyntaxError.
Proof.
  intros Hk. rewrite mark_notified_limit.
  apply mark_notified_f_syntax; assumption.
Qed.

Lemma mark_notified_user_raises_witness :
  mark_notified (fun l => l) (mk_pstate (Is false) Staged) (mk_pfile (Some 1))
    (Is (mk_user 7)) db_empty = Err SQLSyntaxError.
Proof.
  apply (mark_notified_user_raises (fun l => l) (@Permutation_refl _)).
  left; reflexivity.
Defined.

(** C6 (code defect).  [mark_notified(f, Anything)] raises the same
    syntax error, after the lazy [persist] of a missing status row: no
    stakeholder is marked notified. *)
Theorem mark_notified_any_raises scan (Hscan : forall l, Permutation (scan l) l)
  nt k fid d :
  k = Staged \/ k = Deleted ->
  mark_notified scan (mk_pstate nt k) (mk_pfile (Some fid)) Anything d
  = Err SQLSyntaxError.
Proof.
  intros Hk. rewrite mark_notified_limit.
  apply mark_notified_f_syntax; assumption.
Qed.

Lemma mark_notified_any_raises_witness :
  mark_notified (fun l => l) (mk_pstate (Is false) Staged) (mk_pfile (Some 1))
    Anything db_empty = Err SQLSyntaxError.
Proof.
  apply (mark_notified_any_raises (fun l => l) (@Permutation_refl _)).
  left; reflexivity.
Defined.

(** C10.  For every state and every choice of concrete or wildcard
    [notified] (and, for warnings, [tminus]), the fragment of [file_cte]
    has as many [%s] placeholders as its parameter tuple has entries, and
    the i-th placeholder compares the column the i-th parameter is for. *)
Theorem file_cte_params_consistent st :
  let '(sql, ps) := file_cte st in
  count_placeholders sql = length ps
  /\ Forall2 col_matches (placeholder_columns (tokens sql)) ps.
Proof.
  destruct st as [[|b] [| |[|t]]]; cbn;
    (split; [reflexivity|]);
    repeat (apply Forall2_cons;
            [simpl; first [reflexivity | left; reflexivity | right; reflexivity]|]);
    apply Forall2_nil.
Qed.

(** C8.  [File.stat] re-reads the metadata and resets the timestamp to
    the current time exactly when the cached metadata is older than
    [_RESTAT_AFTER] (36 hours when the environment does not set it), and
    otherwise returns the cached metadata, reading nothing. *)
Theorem File_stat_staleness env bound now1 now2 path_stat f :
  restat_after env = Ok bound ->
  (env = None -> bound = hours 36)
  /\ (now1 - _timestamp f > bound ->
      File_stat bound now1 now2 path_stat f =
      let* s := path_stat (path f) in
      Ok (s, mk_File (path f) (branch f) s now2, [path f]))
  /\ (now1 - _timestamp f <= bound ->
      File_stat bound now1 now2 path_stat f = Ok (_stat f, f, [])).
Proof.
  intros Hr. split; [|split].
  - intros ->. vm_compute in Hr. injection Hr as <-. reflexivity.
  - intros Hgt. unfold File_stat.
    replace (now1 - _timestamp f >? bound) with true
      by (symmetry; apply Z.gtb_lt; lia).
    reflexivity.
  - intros Hle. unfold File_stat.
    replace (now1 - _timestamp f >? bound) with false
      by (symmetry; rewrite Z.gtb_ltb; apply Z.ltb_ge; lia).
    reflexivity.
Qed.

Lemma File_stat_staleness_witness :
  File_stat (hours 36) (hours 40) (hours 40 + 1)
    (fun _ => Ok stat_example) file_example
  = Ok (stat_example, mk_File "/vaults/x/f" (VSBranch None) stat_example
                        (hours 40 + 1), ["/vaults/x/f"]).
Proof.
  rewrite (proj1 (proj2 (File_stat_staleness None (hours 36) (hours 40)
                           (hours 40 + 1) (fun _ => Ok stat_example)
                           file_example eq_refl))).
  - reflexivity.
  - vm_compute. reflexivity.
Defined.

Lemma set_add_in_inv {V} (eqb : V -> V -> bool) v w vs :
  In v (set_add V eqb w vs) -> In v vs \/ v = w.
Proof.
  unfold set_add. destruct (existsb (eqb w) vs); [auto|].
  intros H. apply in_app_or in H. destruct H as [H|[H|[]]]; auto.
Qed.

Lemma set_add_keeps {V} (eqb : V -> V -> bool) v w vs :
  In v vs -> In v (set_add V eqb w vs).
Proof.
  unfold set_add. destruct (existsb (eqb w) vs); [auto|].
  intros H. apply in_or_app. auto.
Qed.

Lemma set_add_covers {V} (eqb : V -> V -> bool) w vs :
  exists v', In v' (set_add V eqb w vs) /\ (v' = w \/ eqb w v' = true).
Proof.
  unfold set_add. destruct (existsb (eqb w) vs) eqn:E.
  - apply existsb_exists in E. destruct E as [v' [Hin Heq]]. eauto.
  - exists w. split; [apply in_or_app; simpl; auto | auto].
Qed.

(** Invariant of the [_common_vaults] loop when every resolution either
    succeeds or raises a conflict. *)
Lemma common_vaults_loop_spec {V} (eqb : V -> V -> bool)
  (Vault_new : string -> res V) (conflict_str : string -> string) paths vs :
  (forall p, In p paths ->
     (exists v, Vault_new p = Ok v) \/ Vault_new p = Err VaultConflict) ->
  exists vs',
    common_vaults_loop V eqb Vault_new conflict_str paths vs
    = (Ok vs', map (skip_warning conflict_str)
                   (filter (conflicted Vault_new) paths))
    /\ (forall v, In v vs' -> In v vs \/ exists p, In p paths /\ Vault_new p = Ok v)
    /\ (forall v, In v vs -> In v vs')
    /\ (forall p v, In p paths -> Vault_new p = Ok v ->
          exists v', In v' vs' /\ (v' = v \/ eqb v v' = true)).
Proof.
  revert vs.
  induction paths as [|p r IH]; intros vs Hres; simpl.
  - exists vs. repeat split; auto.
    intros p v [].
  - assert (Hr : forall q, In q r ->
                 (exists v, Vault_new q = Ok v) \/ Vault_new q = Err VaultConflict)
      by (intros q Hq; apply Hres; simpl; auto).
    unfold conflicted at 1.
    destruct (Hres p (or_introl eq_refl)) as [[v Hv]|Hc].
    + rewrite Hv.
      destruct (IH (set_add V eqb v vs) Hr) as (vs' & Hl & H1 & H2 & H3).
      exists vs'. repeat split; auto.
      * intros x Hx. destruct (H1 x Hx) as [Hx1|(q & Hq & Hqv)].
        -- apply set_add_in_inv in Hx1. destruct Hx1 as [Hx1 | ->]; auto.
           right. exists p. auto.
        -- right. exists q. auto.
      * intros x Hx. apply H2. apply set_add_keeps. exact Hx.
      * intros q x [<-|Hq] Hqx.
        -- rewrite Hv in Hqx. injection Hqx as <-.
           destruct (set_add_covers eqb v vs) as (v' & Hin & Hor).
           exists v'. auto.
        -- apply H3 with q; auto.
    + rewrite Hc.
      destruct (IH vs Hr) as (vs' & Hl & H1 & H2 & H3).
      exists vs'. rewrite Hl. repeat split; auto.
      * intros x Hx. destruct (H1 x Hx) as [Hx1|(q & Hq & Hqv)]; auto.
        right. exists q. auto.
      * intros q x [<-|Hq] Hqx.
        -- congruence.
        -- apply H3 with q; auto.
Qed.

(** The [_common_vaults] loop meets a resolution raising an exception other
    than a conflict after paths that each resolve or conflict: that
    exception escapes, after the warnings for the conflicts before it. *)
Lemma common_vaults_loop_aborts {V} (eqb : V -> V -> bool)
  (Vault_new : string -> res V) (conflict_str : string -> string)
  pre p e post vs :
  (forall q, In q pre ->
     (exists v, Vault_new q = Ok v) \/ Vault_new q = Err VaultConflict) ->
  Vault_new p = Err e -> e <> VaultConflict ->
  common_vaults_loop V eqb Vault_new conflict_str (pre ++ p :: post) vs
  = (Err e, map (skip_warning conflict_str)
                (filter (conflicted Vault_new) pre)).
Proof.
  intros Hpre Hp He. revert vs.
  induction pre as [|q r IH]; intros vs; simpl.
  - rewrite Hp.
    destruct e; try reflexivity. exfalso. apply He. reflexivity.
  - assert (Hr : forall q', In q' r ->
                 (exists v, Vault_new q' = Ok v) \/ Vault_new q' = Err VaultConflict)
      by (intros q' Hq; apply Hpre; simpl; auto).
    unfold conflicted at 1.
    destruct (Hpre q (or_introl eq_refl)) as [[v Hv]|Hc].
    + rewrite Hv. apply (IH Hr).
    + rewrite Hc. rewrite (IH Hr). reflexivity.
Qed.

(** C9.  [FilesystemWalker] construction catches only vault conflicts: when
    a base path's resolution raises any other exception (the paths before
    it each resolving or conflicting), construction raises that exception,
    whatever vaults the other paths resolve to; the warnings for the
    conflicts before it are logged. *)
Theorem filesystem_walker_init_aborts {V} (eqb : V -> V -> bool)
  (Vault_new : string -> res V) (conflict_str : string -> string)
  pre p e post :
  (forall q, In q pre ->
     (exists v, Vault_new q = Ok v) \/ Vault_new q = Err VaultConflict) ->
  Vault_new p = Err e -> e <> VaultConflict ->
  FilesystemWalker_init V eqb Vault_new conflict_str (pre ++ p :: post)
  = (Err e, map (skip_warning conflict_str)
                (filter (conflicted Vault_new) pre)).
Proof.
  intros Hpre Hp He.
  unfold FilesystemWalker_init, _common_vaults.
  rewrite (common_vaults_loop_aborts eqb Vault_new conflict_str pre p e post []
             Hpre Hp He).
  reflexivity.
Qed.

Lemma filesystem_walker_init_aborts_witness :
  resolve_other "/vaults/x" = Ok "/vaults/x"
  /\ FilesystemWalker_init string String.eqb resolve_other (fun _ => "conflict")
       (["/vaults/x"] ++ "/vaults/y" :: [])
     = (Err (OtherError "PermissionError"),
        map (skip_warning (fun _ => "conflict"))
            (filter (conflicted resolve_other) ["/vaults/x"])).
Proof.
  split; [reflexivity|].
  apply (filesystem_walker_init_aborts String.eqb resolve_other
           (fun _ => "conflict") ["/vaults/x"] "/vaults/y"
           (OtherError "PermissionError") []).
  - intros q [<-|[]]. left. exists "/vaults/x". reflexivity.
  - reflexivity.
  - discriminate.
Defined.

(** X15.  When every base path either resolves to a vault or raises a vault
    conflict, [FilesystemWalker] construction logs the warning
    [Skipping {path}: {e}] for each conflicting path, in order, whether or
    not construction then succeeds; it keeps every resolved vault (up to the
    set's equality) and nothing else, and fails (on its assertion) exactly
    when no path resolves. *)
Theorem filesystem_walker_init_conflicts {V} (eqb : V -> V -> bool)
  (Vault_new : string -> res V) (conflict_str : string -> string) bases :
  (forall p, In p bases ->
     (exists v, Vault_new p = Ok v) \/ Vault_new p = Err VaultConflict) ->
  let '(out, log) := FilesystemWalker_init V eqb Vault_new conflict_str bases in
  log = map (skip_warning conflict_str) (filter (conflicted Vault_new) bases)
  /\ match out with
     | Ok vs =>
         (exists p v, In p bases /\ Vault_new p = Ok v)
         /\ (forall v, In v vs -> exists p, In p bases /\ Vault_new p = Ok v)
         /\ (forall p v, In p bases -> Vault_new p = Ok v ->
               exists v', In v' vs /\ (v' = v \/ eqb v v' = true))
     | Err e =>
         e = AssertionError
         /\ (forall p, In p bases -> Vault_new p = Err VaultConflict)
     end.
Proof.
  intros Hres.
  destruct (common_vaults_loop_spec eqb Vault_new conflict_str bases [] Hres)
    as (vs & Hl & H1 & H2 & H3).
  unfold FilesystemWalker_init, _common_vaults. rewrite Hl.
  destruct vs as [|v0 vs0]; simpl; split; try reflexivity.
  - split; [reflexivity|].
    intros p Hp. destruct (Hres p Hp) as [[v Hv]|Hc]; [|exact Hc].
    destruct (H3 p v Hp Hv) as (v' & [] & _).
  - repeat split.
    + destruct (H1 v0 (or_introl eq_refl)) as [[]|(p & Hp & Hv)].
      exists p, v0. auto.
    + intros v Hv. destruct (H1 v Hv) as [[]|Hex]. exact Hex.
    + exact H3.
Qed.

Lemma filesystem_walker_init_conflicts_witness :
  FilesystemWalker_init string String.eqb resolve_conflict (fun _ => "nested")
    ["/vaults/x"; "/vaults/nested"]
  = (Ok ["/vaults/x"], ["Skipping /vaults/nested: nested"])
  /\ (["Skipping /vaults/nested: nested"]
      = map (skip_warning (fun _ => "nested"))
            (filter (conflicted resolve_conflict) ["/vaults/x"; "/vaults/nested"])
     /\ ((exists p v, In p ["/vaults/x"; "/vaults/nested"]
                      /\ resolve_conflict p = Ok v)
         /\ (forall v, In v ["/vaults/x"] ->
               exists p, In p ["/vaults/x"; "/vaults/nested"]
                         /\ resolve_conflict p = Ok v)
         /\ (forall p v, In p ["/vaults/x"; "/vaults/nested"] ->
               resolve_conflict p = Ok v ->
               exists v', In v' ["/vaults/x"] /\ (v' = v \/ String.eqb v v' = true)))).
Proof.
  split; [reflexivity|].
  refine (filesystem_walker_init_conflicts String.eqb resolve_conflict
            (fun _ => "nested") ["/vaults/x"; "/vaults/nested"] _).
  intros p [<-|[<-|[]]].
  - left. exists "/vaults/x". reflexivity.
  - right. reflexivity.
Defined.

Lemma split_acc_nonempty sep cur s : split_acc sep cur s <> [].
Proof.
  revert cur. induction s as [|c r IH]; intros cur; simpl.
  - discriminate.
  - destruct (Ascii.eqb c sep); [discriminate | apply IH].
Qed.

(** The [while] test of [mpistatWalker.files] never fails: [str.split]
    always returns a non-empty, hence truthy, list. *)
Lemma files_turn_not_stop decode V root branch items ts line :
  files_turn decode V root branch items ts line <> Ok Stop.
Proof.
  unfold files_turn, py_split.
  destruct (split_acc _ "" (py_strip line)) as [|encoded stats] eqn:E.
  - exfalso. exact (split_acc_nonempty _ _ _ E).
  - destruct (nth_field stats 6) as [mode|e]; simpl; [|discriminate].
    destruct (String.eqb mode "f"); [|discriminate].
    destruct (_is_match decode V root items encoded) as [[[v p]|]|e];
      simpl; try discriminate.
    destruct (_vault_status V branch v p); simpl; [|discriminate].
    destruct (_make_stat stats); simpl; discriminate.
Qed.

(** C3 (code defect).  On the [""] that [readline()] returns at the end
    of the stream, and on a blank line, the loop body raises [IndexError]
    ([stats[_MODE]] of an empty [stats]); the loop test never stops the
    iteration, so for every snapshot [files()] ends by raising, never by
    finishing. *)
Theorem mpistat_files_raises decode V root branch items ts text :
  files_turn decode V root branch items ts "" = Err IndexError
  /\ files_turn decode V root branch items ts (String "010" EmptyString)
     = Err IndexError
  /\ exists e, snd (mpistat_files decode V root branch items ts text) = Raised e.
Proof.
  split; [reflexivity|]. split; [reflexivity|].
  unfold mpistat_files. induction (readlines text) as [|l r IH]; simpl.
  - exists IndexError. reflexivity.
  - destruct (files_turn decode V root branch items ts l) as [[|y]|e] eqn:E.
    + exfalso. exact (files_turn_not_stop _ _ _ _ _ _ _ E).
    + destruct (files_loop decode V root branch items ts r) as [ys en].
      exact IH.
    + exists e. reflexivity.
Qed.

Lemma list_prefixb_app a b :
  list_prefixb a b = true -> exists rest, b = a ++ rest.
Proof.
  revert b. induction a as [|x a IH]; intros b H.
  - exists b. reflexivity.
  - destruct b as [|y b]; simpl in H; [discriminate|].
    apply andb_true_iff in H. destruct H as [Hxy H].
    apply String.eqb_eq in Hxy. subst y.
    destruct (IH b H) as [rest ->]. exists rest. reflexivity.
Qed.

Lemma relative_to_ok_under p root :
  relative_to_ok p root = true -> path_under root p.
Proof.
  unfold relative_to_ok, path_under.
  destruct (path_parts root) as [|x l] eqn:E; intros H.
  - exists (path_parts p). reflexivity.
  - exact (list_prefixb_app _ _ H).
Qed.

(** C7.  [_is_match] returns a vault only when the record's decoded path
    lies in that vault's root: a record whose encoding begins with a
    vault's prefix but whose path is outside its root is passed over. *)
Theorem is_match_sound decode V root items encoded v p :
  _is_match decode V root items encoded = Ok (Some (v, p)) ->
  In v (map snd items) /\ decode encoded = Ok p /\ path_under (root v) p.
Proof.
  induction items as [|[prefix w] r IH]; simpl; [discriminate|].
  destruct (String.prefix prefix encoded).
  - destruct (decode encoded) as [q|e] eqn:Hd; simpl; [|discriminate].
    destruct (relative_to_ok q (root w)) eqn:Hr.
    + intros H. injection H as <- <-.
      split; [auto|]. split; [reflexivity|]. apply relative_to_ok_under, Hr.
    + intros H. destruct (IH H) as (Hin & Hdec & Hu). auto.
  - intros H. destruct (IH H) as (Hin & Hdec & Hu). auto.
Qed.

Lemma is_match_sound_witness :
  In "/data/ab" (map snd items_ab)
  /\ b64decode (b64encode "/data/ab/x") = Ok "/data/ab/x"
  /\ path_under "/data/ab" "/data/ab/x".
Proof.
  apply (is_match_sound b64decode string (fun s => s) items_ab
           (b64encode "/data/ab/x")).
  vm_compute. reflexivity.
Defined.

(** The prefix table of the vault roots [/data/a] and [/data/ab]; the
    encoding of [/data/ab/x] begins with the prefix of [/data/a] too, and
    the ancestry test passes it on to [/data/ab]. *)
Example vaults_dict_ab :
  vaults_dict b64encode string (fun s => s) ["/data/a"; "/data/ab"] []
  = Ok items_ab.
Proof. vm_compute. reflexivity. Qed.

Example prefix_a_hits_ab_record :
  String.prefix "L2RhdGEvY" (b64encode "/data/ab/x") = true
  /\ relative_to_ok "/data/ab/x" "/data/a" = false
  /\ _is_match b64decode string (fun s => s) items_ab (b64encode "/data/ab/x")
     = Ok (Some ("/data/ab", "/data/ab/x")).
Proof. vm_compute. repeat split. Qed.

(** Roots whose encodings differ only after the prefix share one key of
    [self._vaults]: for [/data/a] and [/data/b] only the latter is kept. *)
Example vaults_dict_prefix_collision :
  vaults_dict b64encode string (fun s => s) ["/data/a"; "/data/b"] []
  = Ok [("L2RhdGEvY", "/data/b")].
Proof. vm_compute. reflexivity. Qed.

(** ** Further properties of the state store *)

(** X1.  [_PersistedState.exists] finds a status row exactly when one
    exists: a returned id belongs to a row for the file and the state's
    kind, and [None] means there is no such row, whatever order the
    database lists rows in. *)
Theorem base_exists_spec scan (Hscan : forall l, Permutation (scan l) l)
  st fid d :
  match base_exists scan st (mk_pfile (Some fid)) d with
  | Ok (Some i) =>
      exists r, In r (status d) /\ st_id r = i /\ st_file r = fid
                /\ st_state r = db_type (skind st)
  | Ok None =>
      forall r, In r (status d) -> st_file r = fid ->
                st_state r <> db_type (skind st)
  | Err _ => False
  end.
Proof.
  unfold base_exists; simpl.
  set (rows := filter (fun r => String.eqb (st_state r) (db_type (skind st))
                                && Z.eqb (st_file r) fid) (status d)).
  pose proof (Hscan rows) as Hp.
  destruct (scan rows) as [|r0 t] eqn:E.
  - intros r Hr Hf Hs.
    assert (Hin : In r rows).
    { unfold rows. apply filter_In. split; [exact Hr|].
      rewrite Hs, Hf, String.eqb_refl, Z.eqb_refl. reflexivity. }
    apply (Permutation_in _ (Permutation_sym Hp)) in Hin. destruct Hin.
  - assert (Hin : In r0 rows)
      by (apply (Permutation_in _ Hp); left; reflexivity).
    unfold rows in Hin. apply filter_In in Hin. destruct Hin as [Hin Hm].
    apply andb_true_iff in Hm. destruct Hm as [Hs Hf].
    apply String.eqb_eq in Hs. apply Z.eqb_eq in Hf.
    exists r0. auto.
Qed.

Lemma base_exists_spec_witness :
  exists r, In r (status db_one_staged) /\ st_id r = 1 /\ st_file r = 1
            /\ st_state r = db_type Staged.
Proof.
  exact (base_exists_spec (fun l => l) (@Permutation_refl _)
           (mk_pstate (Is false) Staged) 1 db_one_staged).
Defined.

Lemma persist_f_false scan n k fid d :
  k = Staged \/ k = Deleted ->
  persist_f scan (S n) (mk_pstate (Is false) k) (mk_pfile (Some fid)) d
  = Ok (insert_status fid (db_type k) d).
Proof.
  intros [-> | ->]; cbn [persist_f skind db_id notified truthy];
    destruct (insert_status fid _ d); reflexivity.
Qed.

Lemma persist_f_truthy_syntax scan (Hscan : forall l, Permutation (scan l) l)
  n nt k fid d :
  truthy nt = true -> k = Staged \/ k = Deleted ->
  persist_f scan (S (S (S (S n)))) (mk_pstate nt k) (mk_pfile (Some fid)) d
  = Err SQLSyntaxError.
Proof.
  intros Ht Hk.
  destruct Hk as [-> | ->]; cbn [persist_f skind db_id notified];
    destruct (insert_status fid _ d) as [sid d1] eqn:Hins; rewrite Ht;
    (rewrite mark_notified_f_syntax; [reflexivity | exact Hscan | simpl; auto]).
Qed.

Lemma persist_f_no_id scan n nt k d :
  k = Staged \/ k = Deleted ->
  persist_f scan (S n) (mk_pstate nt k) (mk_pfile None) d = Err AssertionError.
Proof. intros [-> | ->]; reflexivity. Qed.

(** X2.  For staged and deleted states, [persist] succeeds exactly when
    [notified] is [False]: it then appends one status row under the
    serial's next id and returns that id, leaving warnings and
    notifications as they were.  A truthy [notified], the [Anything] class
    included, makes it raise the syntax error of the nested
    [mark_notified]; a file without [db_id] fails the assertion. *)
Theorem persist_staged_spec scan (Hscan : forall l, Permutation (scan l) l)
  nt k fid d :
  k = Staged \/ k = Deleted ->
  persist scan (mk_pstate nt k) (mk_pfile (Some fid)) d
    = (if truthy nt then Err SQLSyntaxError
       else Ok (insert_status fid (db_type k) d))
  /\ persist scan (mk_pstate nt k) (mk_pfile None) d = Err AssertionError.
Proof.
  intros Hk. rewrite !persist_limit. split.
  - destruct (truthy nt) eqn:Ht.
    + apply persist_f_truthy_syntax; assumption.
    + destruct nt as [|[|]]; simpl in Ht; try discriminate.
      apply persist_f_false; exact Hk.
  - apply persist_f_no_id; exact Hk.
Qed.

Lemma persist_staged_spec_witness :
  persist (fun l => l) (mk_pstate Anything Staged) (mk_pfile (Some 1)) db_empty
    = Err SQLSyntaxError
  /\ persist (fun l => l) (mk_pstate Anything Staged) (mk_pfile None) db_empty
       = Err AssertionError.
Proof.
  exact (persist_staged_spec (fun l => l) (@Permutation_refl _) Anything Staged
           1 db_empty (or_introl eq_refl)).
Defined.

Lemma persist_f_warned scan n nt t fid d :
  persist_f scan (S (S n)) (mk_pstate nt (Warned (Is t))) (mk_pfile (Some fid)) d
  = if truthy nt then Err (NameError "state")
    else let '(sid, d1) := insert_status fid "warned" d in
         Ok (sid, insert_warning sid t d1).
Proof. destruct (truthy nt) eqn:Ht; simpl; rewrite Ht; reflexivity. Qed.

Lemma persist_f_warned_any scan n nt fid d :
  persist_f scan (S n) (mk_pstate nt (Warned Anything)) (mk_pfile (Some fid)) d
  = Err AssertionError.
Proof. reflexivity. Qed.

(** X3.  [State.Warned.persist] needs a concrete lead-time (the wildcard
    fails its assertion).  With [notified] false it appends a status row
    of state [warned] and a warning row pointing to it with that
    lead-time, and returns the new id; with a truthy [notified] the nested
    [mark_notified] raises [NameError] from [Warned.exists]. *)
Theorem warned_persist_spec scan nt tm fid d :
  persist scan (mk_pstate nt (Warned tm)) (mk_pfile (Some fid)) d
  = match tm with
    | Anything => Err AssertionError
    | Is t =>
        if truthy nt then Err (NameError "state")
        else let '(sid, d1) := insert_status fid "warned" d in
             Ok (sid, insert_warning sid t d1)
    end.
Proof.
  rewrite persist_limit. destruct tm as [|t].
  - apply persist_f_warned_any.
  - apply persist_f_warned.
Qed.

Lemma mark_notified_f_warned scan n nt tm fid s d :
  mark_notified_f scan (S n) (mk_pstate nt (Warned tm)) (mk_pfile (Some fid)) s d
  = Err (match tm with Anything => AssertionError | Is _ => NameError "state" end).
Proof. destruct tm; reflexivity. Qed.

(** X4.  [mark_notified] on a warned state always raises before it
    touches the database: [AssertionError] for the wildcard lead-time,
    otherwise [NameError] from the [state] name in [Warned.exists]. *)
Theorem mark_notified_warned_raises scan nt tm fid s d :
  mark_notified scan (mk_pstate nt (Warned tm)) (mk_pfile (Some fid)) s d
  = Err (match tm with Anything => AssertionError | Is _ => NameError "state" end).
Proof. rewrite mark_notified_limit. apply mark_notified_f_warned. Qed.

(** X5.  The statement [mark_notified] executes has as many [%s]
    placeholders as the parameter tuple it passes, for a concrete
    stakeholder and for the wildcard. *)
Theorem mark_notified_params_consistent sid fid s :
  count_placeholders (notify_insert_sql s)
  = length (notify_query_params sid fid s).
Proof. destruct s; reflexivity. Qed.

(** X6.  The fragment of [State.Warned.file_cte] reads the tables
    [status] and [warnings] but qualifies a column with [state], which is
    neither: whatever its filters, the query names a table it does not
    select from. *)
Theorem warned_file_cte_unknown_table nt tm :
  let toks := tokens (fst (file_cte (mk_pstate nt (Warned tm)))) in
  from_tables toks = ["status"; "warnings"]
  /\ filter (fun q => negb (existsb (String.eqb q) (from_tables toks)))
            (qualifiers toks) = ["state"].
Proof. destruct nt, tm; split; reflexivity. Qed.

(** ** Further properties of the walkers *)

(** *** The base64 prefix of a vault root *)

Lemma list_ascii_of_string_app (s1 s2 : string) :
  list_ascii_of_string (s1 ++ s2)%string
  = list_ascii_of_string s1 ++ list_ascii_of_string s2.
Proof. induction s1 as [|c s IH]; simpl; [reflexivity|]. now rewrite IH. Qed.

Lemma common_prefix_len_list a b :
  common_prefix_len (string_of_list_ascii a) (string_of_list_ascii b)
  = cpl_list a b.
Proof.
  revert b. induction a as [|x a IH]; intros [|y b]; simpl; try reflexivity.
  now rewrite IH.
Qed.

Lemma substring_list n l :
  substring 0 n (string_of_list_ascii l) = string_of_list_ascii (firstn n l).
Proof.
  revert l. induction n as [|n IH]; intros [|c l]; simpl; try reflexivity.
  now rewrite IH.
Qed.

Lemma prefix_list_string a b :
  String.prefix (string_of_list_ascii a) (string_of_list_ascii b)
  = prefix_list a b.
Proof.
  revert b. induction a as [|x a IH]; intros [|y b]; simpl; try reflexivity.
  destruct (ascii_dec x y) as [->|Hne].
  - now rewrite Ascii.eqb_refl, IH.
  - apply Ascii.eqb_neq in Hne. now rewrite Hne.
Qed.

Lemma b64_char_16_distinct (m : nat) :
  (m < 4)%nat ->
  Ascii.eqb (b64_char (16 * m)%nat) (b64_char (16 * m + 2)%nat) = false.
Proof. intros Hm. do 4 (destruct m as [|m]; [reflexivity|]). lia. Qed.

(** On bytes: the common prefix of the encodings of [L] and [L ++ "/"] begins
    the encoding of every [L ++ "/" ++ R]. *)
Lemma b64_prefix_bytes n L R :
  (length L <= n)%nat ->
  prefix_list
    (firstn (cpl_list (b64_encode_bytes L) (b64_encode_bytes (L ++ [47%nat])))
            (b64_encode_bytes L))
    (b64_encode_bytes (L ++ 47%nat :: R)) = true.
Proof.
  revert L. induction n as [|n IH]; intros L Hl.
  - destruct L; [reflexivity | simpl in Hl; lia].
  - destruct L as [|a [|b [|c L]]].
    + reflexivity.
    + cbn [app b64_encode_bytes].
      change (47 / 16)%nat with 2%nat.
      change (4 * (47 mod 16))%nat with 60%nat.
      cbn [cpl_list]. rewrite Ascii.eqb_refl.
      rewrite b64_char_16_distinct by (apply Nat.mod_upper_bound; lia).
      destruct R as [|r R]; cbn [firstn b64_encode_bytes prefix_list];
        rewrite Ascii.eqb_refl; reflexivity.
    + cbn [app b64_encode_bytes].
      change (47 / 64)%nat with 0%nat. change (47 mod 64)%nat with 47%nat.
      rewrite Nat.add_0_r.
      cbn [cpl_list]. rewrite !Ascii.eqb_refl.
      change (Ascii.eqb "=" (b64_char 47)) with false.
      cbn [firstn prefix_list]. rewrite !Ascii.eqb_refl. reflexivity.
    + cbn [app b64_encode_bytes cpl_list]. rewrite !Ascii.eqb_refl.
      cbn [firstn prefix_list]. rewrite !Ascii.eqb_refl. cbn [andb].
      apply IH. simpl in Hl. lia.
Qed.

Lemma base64_prefix_ok encode root pre :
  _base64_prefix encode root = Ok pre ->
  pre = substring 0 (common_prefix_len (encode root)
                       (encode (root ++ "/")%string)) (encode root).
Proof.
  unfold _base64_prefix.
  destruct (encode root), (encode (root ++ "/")%string);
    intros H; inversion H; reflexivity.
Qed.

(** X8.  The prefix [_base64_prefix] computes for a vault root (the
    common part of the encodings of the root and of the root followed by a
    slash) begins the encoding of every path [root/rest]: the prefix test
    of [_is_match] never turns away a record of a path below the root. *)
Theorem base64_prefix_covers_children root rest pre :
  _base64_prefix b64encode root = Ok pre ->
  String.prefix pre (b64encode (root ++ "/" ++ rest)%string) = true.
Proof.
  intros H. apply base64_prefix_ok in H. subst pre.
  unfold b64encode.
  rewrite common_prefix_len_list, substring_list, prefix_list_string.
  rewrite !list_ascii_of_string_app, !map_app. cbn [list_ascii_of_string map].
  change (nat_of_ascii "/") with 47%nat.
  apply (b64_prefix_bytes (length (map nat_of_ascii (list_ascii_of_string root)))).
  lia.
Qed.

Lemma base64_prefix_covers_children_witness :
  String.prefix "L2RhdGEvY" (b64encode ("/data/a" ++ "/" ++ "x/y")%string) = true.
Proof.
  apply (base64_prefix_covers_children "/data/a" "x/y" "L2RhdGEvY").
  vm_compute. reflexivity.
Defined.

(** X9.  [_is_match] finds every record below one of its vaults: when the
    record's encoding begins with a vault's prefix and decodes to a path
    inside that vault's root, it returns that decoded path with some vault
    of the table whose root contains the path (not necessarily the same
    vault), never [None] nor an error. *)
Theorem is_match_complete decode V root items encoded pre v p :
  In (pre, v) items -> String.prefix pre encoded = true ->
  decode encoded = Ok p -> relative_to_ok p (root v) = true ->
  exists w, In w (map snd items) /\ relative_to_ok p (root w) = true
            /\ _is_match decode V root items encoded = Ok (Some (w, p)).
Proof.
  intros Hin Hpre Hdec Hrel.
  induction items as [|[k w] r IH]; [destruct Hin|]. simpl.
  destruct Hin as [Heq|Hin].
  - injection Heq as -> ->. rewrite Hpre, Hdec. simpl. rewrite Hrel.
    exists v. auto.
  - destruct (IH Hin) as (w' & Hw' & Hr' & Hm).
    destruct (String.prefix k encoded).
    + rewrite Hdec. simpl. destruct (relative_to_ok p (root w)) eqn:Ew.
      * exists w. auto.
      * exists w'. auto.
    + exists w'. auto.
Qed.

Lemma is_match_complete_witness :
  exists w, In w (map snd items_ab) /\ relative_to_ok "/data/ab/x" w = true
            /\ _is_match b64decode string (fun s => s) items_ab
                 (b64encode "/data/ab/x") = Ok (Some (w, "/data/ab/x")).
Proof.
  apply (is_match_complete b64decode string (fun s => s) items_ab
           (b64encode "/data/ab/x") "L2RhdGEvYWI" "/data/ab");
    vm_compute; auto.
Defined.

Lemma list_ascii_of_string_len s :
  length (list_ascii_of_string s) = String.length s.
Proof. induction s as [|c s IH]; simpl; congruence. Qed.

Lemma b64_encode_nonempty l : l <> [] -> b64_encode_bytes l <> [].
Proof. destruct l as [|a [|b [|c r]]]; [congruence | discriminate ..]. Qed.

Lemma string_of_list_ascii_nonempty l :
  l <> [] -> string_of_list_ascii l <> EmptyString.
Proof. destruct l; [congruence | discriminate]. Qed.

(** Whole groups of three bytes are encoded independently of what follows. *)
Lemma b64_encode_app k L X :
  length L = (3 * k)%nat ->
  b64_encode_bytes (L ++ X) = b64_encode_bytes L ++ b64_encode_bytes X.
Proof.
  revert L. induction k as [|k IH]; intros L H.
  - destruct L; [reflexivity | simpl in H; lia].
  - destruct L as [|a [|b [|c L]]]; simpl in H; try lia.
    cbn [app b64_encode_bytes]. rewrite (IH L) by lia. reflexivity.
Qed.

Lemma cpl_list_app E a b : cpl_list (E ++ a) (E ++ b) = (length E + cpl_list a b)%nat.
Proof. induction E as [|x E IH]; simpl; [reflexivity|]. now rewrite Ascii.eqb_refl, IH. Qed.

Lemma base64_prefix_eq encode root :
  encode root <> EmptyString -> encode (root ++ "/")%string <> EmptyString ->
  _base64_prefix encode root
  = Ok (substring 0 (common_prefix_len (encode root) (encode (root ++ "/")%string))
                  (encode root)).
Proof.
  unfold _base64_prefix.
  destruct (encode root); [congruence|].
  destruct (encode (root ++ "/")%string); [congruence|]. reflexivity.
Qed.

(** On bytes: after whole groups [L], a last byte [a] leaves in the prefix
    only the character for its top six bits. *)
Lemma b64_prefix_last_bytes k L a :
  length L = (3 * k)%nat ->
  firstn (cpl_list (b64_encode_bytes (L ++ [a])) (b64_encode_bytes (L ++ [a; 47%nat])))
         (b64_encode_bytes (L ++ [a]))
  = b64_encode_bytes L ++ [b64_char (a / 4)].
Proof.
  intros HL. rewrite !(b64_encode_app k L) by exact HL.
  rewrite cpl_list_app, firstn_app_2. f_equal.
  cbn [b64_encode_bytes]. change (47 / 16)%nat with 2%nat.
  cbn [cpl_list]. rewrite Ascii.eqb_refl.
  rewrite b64_char_16_distinct by (apply Nat.mod_upper_bound; lia).
  reflexivity.
Qed.

Lemma base64_prefix_last r c :
  (String.length r mod 3 = 0)%nat ->
  _base64_prefix b64encode (r ++ String c EmptyString)%string
  = Ok (string_of_list_ascii
          (b64_encode_bytes (map nat_of_ascii (list_ascii_of_string r))
           ++ [b64_char (nat_of_ascii c / 4)])).
Proof.
  intros Hm.
  assert (HL : length (map nat_of_ascii (list_ascii_of_string r))
               = (3 * (String.length r / 3))%nat).
  { rewrite length_map, list_ascii_of_string_len.
    pose proof (Nat.div_mod_eq (String.length r) 3). lia. }
  rewrite base64_prefix_eq.
  - f_equal. unfold b64encode.
    rewrite common_prefix_len_list, substring_list.
    rewrite !list_ascii_of_string_app, !map_app. cbn [list_ascii_of_string map].
    change (nat_of_ascii "/") with 47%nat. rewrite <- app_assoc. cbn [app].
    f_equal. apply (b64_prefix_last_bytes _ _ _ HL).
  - unfold b64encode. apply string_of_list_ascii_nonempty, b64_encode_nonempty.
    rewrite list_ascii_of_string_app, map_app.
    intros H. apply app_eq_nil in H. destruct H as [_ H]. discriminate.
  - unfold b64encode. apply string_of_list_ascii_nonempty, b64_encode_nonempty.
    rewrite !list_ascii_of_string_app, !map_app.
    intros H. apply app_eq_nil in H. destruct H as [_ H]. discriminate.
Qed.

(** X10.  Two vault roots one byte past a whole number of three-byte
    groups, differing only in the low two bits of that last byte (such as
    [/data/a] and [/data/b]), get the same [_base64_prefix]; the
    comprehension building [self._vaults] then keeps only the later vault
    under that key, and the earlier vault is absent from the table. *)
Theorem colliding_roots_share_prefix r c1 c2 :
  (String.length r mod 3 = 0)%nat ->
  (nat_of_ascii c1 / 4 = nat_of_ascii c2 / 4)%nat ->
  exists pre,
    _base64_prefix b64encode (r ++ String c1 EmptyString)%string = Ok pre
    /\ _base64_prefix b64encode (r ++ String c2 EmptyString)%string = Ok pre
    /\ vaults_dict b64encode string (fun s => s)
         [(r ++ String c1 EmptyString)%string; (r ++ String c2 EmptyString)%string]
         []
       = Ok [(pre, (r ++ String c2 EmptyString)%string)].
Proof.
  intros Hm Hc. eexists. split; [|split].
  - rewrite (base64_prefix_last r c1 Hm). reflexivity.
  - rewrite (base64_prefix_last r c2 Hm), <- Hc. reflexivity.
  - cbn [vaults_dict].
    rewrite (base64_prefix_last r c1 Hm), (base64_prefix_last r c2 Hm), <- Hc.
    cbn [dict_set res_bind]. rewrite String.eqb_refl. reflexivity.
Qed.

Lemma colliding_roots_share_prefix_witness :
  exists pre,
    _base64_prefix b64encode ("/data/" ++ String "a" EmptyString)%string = Ok pre
    /\ _base64_prefix b64encode ("/data/" ++ String "b" EmptyString)%string = Ok pre
    /\ vaults_dict b64encode string (fun s => s)
         [("/data/" ++ String "a" EmptyString)%string;
          ("/data/" ++ String "b" EmptyString)%string]
         []
       = Ok [(pre, ("/data/" ++ String "b" EmptyString)%string)].
Proof.
  apply (colliding_roots_share_prefix "/data/" "a" "b"); reflexivity.
Defined.

(** *** Records of the snapshot *)

Lemma is_match_in_root decode V root items encoded v p :
  _is_match decode V root items encoded = Ok (Some (v, p)) ->
  In v (map snd items) /\ decode encoded = Ok p /\ path_under (root v) p.
Proof.
  induction items as [|[prefix w] r IH]; simpl; [discriminate|].
  destruct (String.prefix prefix encoded).
  - destruct (decode encoded) as [q|e] eqn:Hd; simpl; [|discriminate].
    destruct (relative_to_ok q (root w)) eqn:Hr.
    + intros H. injection H as <- <-.
      split; [auto|]. split; [reflexivity|]. apply relative_to_ok_under, Hr.
    + intros H. destruct (IH H) as (Hin & Hdec & Hu). auto.
  - intros H. destruct (IH H) as (Hin & Hdec & Hu). auto.
Qed.

Lemma make_stat_ok stats s :
  _make_stat stats = Ok s -> length stats = 10%nat /\ st_mode s = 32768.
Proof.
  unfold _make_stat.
  destruct (Nat.eqb (length stats) 10) eqn:El; simpl; [|discriminate].
  apply Nat.eqb_eq in El.
  repeat match goal with
         | |- context [int_field ?l ?i] =>
             destruct (int_field l i); simpl; [|discriminate]
         end.
  intros H. injection H as <-. auto.
Qed.

(** X11.  Every file [mpistatWalker.files] yields comes from a record
    line of eleven tab-separated fields whose mode field is [f]; its path
    is the record's decoded path, which lies under the root of one of the
    walker's vaults; its branch is that vault's status for the path; its
    metadata is the record's, with the regular-file mode; and its
    timestamp is the snapshot's. *)
Theorem files_turn_yield decode V root vb items ts line f :
  files_turn decode V root vb items ts line = Ok (Next (Some f)) ->
  exists encoded stats v,
    py_split (py_strip line) "009"%char = encoded :: stats
    /\ length stats = 10%nat
    /\ nth_error stats 6 = Some "f"
    /\ In v (map snd items) /\ decode encoded = Ok (path f)
    /\ path_under (root v) (path f)
    /\ _vault_status V vb v (path f) = Ok (branch f)
    /\ _make_stat stats = Ok (_stat f)
    /\ st_mode (_stat f) = 32768 /\ _timestamp f = ts.
Proof.
  unfold files_turn.
  destruct (py_split (py_strip line) "009"%char) as [|encoded stats] eqn:Es;
    [discriminate|].
  unfold nth_field at 1.
  destruct (nth_error stats 6) as [mode|] eqn:Hm; simpl; [|discriminate].
  destruct (String.eqb mode "f") eqn:Ef; simpl; [|discriminate].
  apply String.eqb_eq in Ef. subst mode.
  destruct (_is_match decode V root items encoded) as [[[v p]|]|e] eqn:Hmatch;
    simpl; try discriminate.
  destruct (_vault_status V vb v p) as [b|e] eqn:Hb; simpl; [|discriminate].
  destruct (_make_stat stats) as [s|e] eqn:Hs; simpl; [|discriminate].
  intros H. injection H as <-. simpl.
  apply is_match_in_root in Hmatch. destruct Hmatch as (Hin & Hdec & Hu).
  apply make_stat_ok in Hs as Hs'. destruct Hs' as [Hl Hmode].
  exists encoded, stats, v. repeat split; assumption.
Qed.

Lemma files_turn_yield_witness :
  exists encoded stats v,
    py_split (py_strip (tab_join [b64encode "/data/ab/x"; "10"; "0"; "0"; "0";
                                  "0"; "0"; "f"; "1"; "1"; "1"])) "009"%char
      = encoded :: stats
    /\ length stats = 10%nat
    /\ nth_error stats 6 = Some "f"
    /\ In v (map snd items_ab) /\ b64decode encoded = Ok "/data/ab/x"
    /\ path_under v "/data/ab/x"
    /\ _vault_status string (fun _ _ => Ok None) v "/data/ab/x"
       = Ok (VSBranch None)
    /\ _make_stat stats = Ok (mk_stat 32768 1 1 1 0 0 10 0 0 0)
    /\ st_mode (mk_stat 32768 1 1 1 0 0 10 0 0 0) = 32768 /\ 5 = 5.
Proof.
  apply (files_turn_yield b64decode string (fun s => s) (fun _ _ => Ok None)
           items_ab 5
           (tab_join [b64encode "/data/ab/x"; "10"; "0"; "0"; "0";
                      "0"; "0"; "f"; "1"; "1"; "1"])
           (mk_File "/data/ab/x" (VSBranch None)
              (mk_stat 32768 1 1 1 0 0 10 0 0 0) 5)).
  vm_compute. reflexivity.
Defined.

(** X12.  A record line with fewer than eight tab-separated fields makes
    [mpistatWalker.files] raise [IndexError]: the mode field
    [stats[_MODE]] is read before anything else of the record. *)
Theorem files_turn_short_line decode V root vb items ts line :
  (length (py_split (py_strip line) "009"%char) < 8)%nat ->
  files_turn decode V root vb items ts line = Err IndexError.
Proof.
  unfold files_turn.
  destruct (py_split (py_strip line) "009"%char) as [|encoded stats] eqn:Es.
  - exfalso. exact (split_acc_nonempty _ _ _ Es).
  - simpl. intros H. unfold nth_field.
    rewrite (proj2 (nth_error_None stats 6)) by lia. reflexivity.
Qed.

Lemma files_turn_short_line_witness :
  files_turn b64decode string (fun s => s) (fun _ _ => Ok None) items_ab 5
    (tab_join [b64encode "/data/ab/x"; "10"; "0"; "f"]) = Err IndexError.
Proof.
  apply files_turn_short_line. vm_compute. lia.
Defined.

(** X13.  Once [File.stat] has refreshed the metadata (at the second
    clock reading [now2]), the entry keeps its path and branch, and any
    later access within [_RESTAT_AFTER] of [now2] returns the refreshed
    metadata without reading the file again. *)
Theorem File_stat_refresh_then_cached restat now1 now2 now3 now4 path_stat
  f s f' :
  File_stat restat now1 now2 path_stat f = Ok (s, f', [path f]) ->
  now3 - now2 <= restat ->
  _timestamp f' = now2 /\ path f' = path f /\ branch f' = branch f
  /\ File_stat restat now3 now4 path_stat f' = Ok (s, f', []).
Proof.
  intros H Hle. unfold File_stat in H.
  destruct (now1 - _timestamp f >? restat).
  - destruct (path_stat (path f)) as [s0|e]; simpl in H; [|discriminate].
    injection H as <- <-. simpl. repeat split.
    unfold File_stat. simpl.
    replace (now3 - now2 >? restat) with false
      by (symmetry; rewrite Z.gtb_ltb; apply Z.ltb_ge; lia).
    reflexivity.
  - discriminate.
Qed.

Lemma File_stat_refresh_then_cached_witness :
  _timestamp (mk_File "/vaults/x/f" (VSBranch None) stat_example (hours 40 + 1))
    = hours 40 + 1
  /\ path (mk_File "/vaults/x/f" (VSBranch None) stat_example (hours 40 + 1))
     = path file_example
  /\ branch (mk_File "/vaults/x/f" (VSBranch None) stat_example (hours 40 + 1))
     = branch file_example
  /\ File_stat (hours 36) (hours 50) (hours 50)
       (fun _ => Ok stat_example)
       (mk_File "/vaults/x/f" (VSBranch None) stat_example (hours 40 + 1))
     = Ok (stat_example,
           mk_File "/vaults/x/f" (VSBranch None) stat_example (hours 40 + 1), []).
Proof.
  apply (File_stat_refresh_then_cached (hours 36) (hours 40) (hours 40 + 1)
           (hours 50) (hours 50) (fun _ => Ok stat_example) file_example).
  - vm_compute. reflexivity.
  - vm_compute. discriminate.
Defined.

(** *** The command-line parser *)

Lemma resolve_all_ok resolve ps qs :
  resolve_all resolve ps = Ok qs -> Forall2 (fun p q => resolve p = Ok q) ps qs.
Proof.
  revert qs. induction ps as [|p r IH]; intros qs H; simpl in H.
  - injection H as <-. constructor.
  - destruct (resolve p) as [q|e] eqn:Hp; simpl in H; [|discriminate].
    destruct (resolve_all resolve r) as [qs'|e] eqn:Hr; simpl in H;
      [|discriminate].
    injection H as <-. constructor; [exact Hp | apply IH; reflexivity].
Qed.

(** X14.  The parser of [sandman] never returns options with
    [--force-drain] set and [--weaponise] unset; what it returns carries
    the parsed flags, and the vault paths and the [--stats] path, each
    resolved, in the order given. *)
Theorem parser_spec top_level_parse_args resolve args ns :
  parser top_level_parse_args resolve args = Ok ns ->
  (force_drain ns = true -> weaponise ns = true)
  /\ exists parsed,
       top_level_parse_args args = Ok parsed
       /\ weaponise ns = weaponise parsed
       /\ force_drain ns = force_drain parsed
       /\ Forall2 (fun p q => resolve p = Ok q) (vaults parsed) (vaults ns)
       /\ match stats parsed, stats ns with
          | Some s, Some t => resolve s = Ok t
          | None, None => True
          | _, _ => False
          end.
Proof.
  unfold parser.
  destruct (top_level_parse_args args) as [parsed|e]; simpl; [|discriminate].
  destruct (force_drain parsed && negb (weaponise parsed)) eqn:Ef;
    [discriminate|].
  destruct (stats parsed) as [s|] eqn:Hs; simpl.
  - destruct (resolve s) as [t|e] eqn:Ht; simpl; [|discriminate].
    destruct (resolve_all resolve (vaults parsed)) as [vs|e] eqn:Hv; simpl;
      [|discriminate].
    intros H. injection H as <-. simpl. split.
    + intros Hf. rewrite Hf in Ef. destruct (weaponise parsed); [reflexivity|].
      discriminate.
    + exists parsed. split; [reflexivity|]. split; [reflexivity|].
      split; [reflexivity|]. split; [apply resolve_all_ok; exact Hv|].
      rewrite Hs. exact Ht.
  - destruct (resolve_all resolve (vaults parsed)) as [vs|e] eqn:Hv; simpl;
      [|discriminate].
    intros H. injection H as <-. simpl. split.
    + intros Hf. rewrite Hf in Ef. destruct (weaponise parsed); [reflexivity|].
      discriminate.
    + exists parsed. split; [reflexivity|]. split; [reflexivity|].
      split; [reflexivity|]. split; [apply resolve_all_ok; exact Hv|].
      rewrite Hs. exact I.
Qed.

Lemma parser_spec_witness :
  (force_drain (mk_namespace ["/vaults/x"] true true None) = true ->
   weaponise (mk_namespace ["/vaults/x"] true true None) = true)
  /\ exists parsed,
       Ok (mk_namespace ["/vaults/x"] true true None) = Ok parsed
       /\ weaponise (mk_namespace ["/vaults/x"] true true None) = weaponise parsed
       /\ force_drain (mk_namespace ["/vaults/x"] true true None)
          = force_drain parsed
       /\ Forall2 (fun p q => @Ok string p = Ok q) (vaults parsed) ["/vaults/x"]
       /\ match stats parsed, @None string with
          | Some s, Some t => @Ok string s = Ok t
          | None, None => True
          | _, _ => False
          end.
Proof.
  exact (parser_spec (fun _ => Ok (mk_namespace ["/vaults/x"] true true None))
           (fun p => Ok p) ["/vaults/x"; "--weaponise"; "--force-drain"]
           (mk_namespace ["/vaults/x"] true true None) eq_refl).
Defined.
